(** * Ocr2Md desktop workbench: the settings pane of [LayoutShell.tsx]

    A shallow embedding of the profile editor of
    [apps/desktop/ui/src/components/LayoutShell.tsx]: the two profile record
    types and their conversions, the React state of the component, the
    synchronous handlers ([setProfileField], [addProfile], [removeProfile])
    and the two asynchronous handlers that cross the Tauri operation surface
    ([handleLoadProfiles], [handleSaveProfiles]).

    A React state cell updated with [setX] is a field of [ShellState]; a
    handler is a function from the state of the render it closes over to the
    state after its updates are flushed.  The Tauri backend behind
    [window.__TAURI__.core.invoke] is an explicit state [B] threaded through
    every call; an asynchronous handler is run to completion, from the click
    to the [finally] block, with no other action in between.  [Async] lifts
    that restriction: there a handler suspends at its [await] and resumes
    after any number of other actions.  [Form] holds what the render derives
    from the state.

    The backend itself (the credential vault) is modelled in [Vault] from the
    specification, over abstract key-derivation, sealing and serialization
    primitives; [Vault.commands] plugs it into the component's runtime. *)

From Stdlib Require Import Ascii.
From stdpp Require Import base list strings pretty.

(** ** Profile records *)

(** [type LocalProfile] (camelCase, held in the component state). *)
Module LocalProfile.
Record t : Type := mk {
  name : string;
  provider : string;
  baseUrl : string;
  apiKey : string;
  model : string;
  enabled : bool
}.
End LocalProfile.

(** [type ProviderProfilePayload] (snake_case, sent to and received from the
    backend commands). *)
Module ProviderProfilePayload.
Record t : Type := mk {
  name : string;
  provider : string;
  base_url : string;
  api_key : string;
  model : string;
  enabled : bool
}.
End ProviderProfilePayload.

Module Shell.

(** [type StatusTone = "info" | "success" | "error"]. *)
Inductive StatusTone : Type := tone_info | tone_success | tone_error.

Definition tone_class (t : StatusTone) : string :=
  match t with
  | tone_info => "info"
  | tone_success => "success"
  | tone_error => "error"
  end.

(** [providerChoices]: the options of the Provider selector, value and label. *)
Definition providerChoices : list (string * string) :=
  [ ("openai", "OpenAI");
    ("claude", "Claude");
    ("gemini", "Gemini");
    ("relay", "OpenAI Relay");
    ("cc-switch", "CC-Switch Relay") ].

Definition providerValues : list string := fst <$> providerChoices.

Definition initialProfiles : list LocalProfile.t :=
  [ LocalProfile.mk "Primary OpenAI" "openai" "https://api.openai.com/v1"
      "" "gpt-4.1-mini" true ].

Definition toLocalProfile (payload : ProviderProfilePayload.t) : LocalProfile.t :=
  {| LocalProfile.name := ProviderProfilePayload.name payload;
     LocalProfile.provider := ProviderProfilePayload.provider payload;
     LocalProfile.baseUrl := ProviderProfilePayload.base_url payload;
     LocalProfile.apiKey := ProviderProfilePayload.api_key payload;
     LocalProfile.model := ProviderProfilePayload.model payload;
     LocalProfile.enabled := ProviderProfilePayload.enabled payload |}.

Definition toPayload (profile : LocalProfile.t) : ProviderProfilePayload.t :=
  {| ProviderProfilePayload.name := LocalProfile.name profile;
     ProviderProfilePayload.provider := LocalProfile.provider profile;
     ProviderProfilePayload.base_url := LocalProfile.baseUrl profile;
     ProviderProfilePayload.api_key := LocalProfile.apiKey profile;
     ProviderProfilePayload.model := LocalProfile.model profile;
     ProviderProfilePayload.enabled := LocalProfile.enabled profile |}.

(** ** Component state: the six [useState] cells of [LayoutShell] *)

Record ShellState : Type := mkState {
  passphrase : string;
  profiles : list LocalProfile.t;
  activeProfileIndex : nat;
  isWorking : bool;
  statusTone : StatusTone;
  statusMessage : string
}.

Definition initialState : ShellState :=
  {| passphrase := "";
     profiles := initialProfiles;
     activeProfileIndex := 0;
     isWorking := false;
     statusTone := tone_info;
     statusMessage :=
       "Configure provider credentials, then save encrypted profiles." |}.

Definition setPassphrase (v : string) (s : ShellState) : ShellState :=
  mkState v (profiles s) (activeProfileIndex s) (isWorking s)
          (statusTone s) (statusMessage s).

Definition setProfiles (v : list LocalProfile.t) (s : ShellState) : ShellState :=
  mkState (passphrase s) v (activeProfileIndex s) (isWorking s)
          (statusTone s) (statusMessage s).

Definition setActiveProfileIndex (v : nat) (s : ShellState) : ShellState :=
  mkState (passphrase s) (profiles s) v (isWorking s)
          (statusTone s) (statusMessage s).

Definition setIsWorking (v : bool) (s : ShellState) : ShellState :=
  mkState (passphrase s) (profiles s) (activeProfileIndex s) v
          (statusTone s) (statusMessage s).

Definition setStatusTone (v : StatusTone) (s : ShellState) : ShellState :=
  mkState (passphrase s) (profiles s) (activeProfileIndex s) (isWorking s)
          v (statusMessage s).

Definition setStatusMessage (v : string) (s : ShellState) : ShellState :=
  mkState (passphrase s) (profiles s) (activeProfileIndex s) (isWorking s)
          (statusTone s) v.

(** ** Synchronous handlers *)

(** A key of [LocalProfile] together with a value of that key's type: the two
    arguments of [setProfileField<K>(key, value)]. *)
Inductive FieldValue : Type :=
| name_value (v : string)
| provider_value (v : string)
| baseUrl_value (v : string)
| apiKey_value (v : string)
| model_value (v : string)
| enabled_value (v : bool).

(** [{ ...item, [key]: value }]. *)
Definition with_field (kv : FieldValue) (item : LocalProfile.t) : LocalProfile.t :=
  match kv with
  | name_value v =>
      LocalProfile.mk v (LocalProfile.provider item) (LocalProfile.baseUrl item)
        (LocalProfile.apiKey item) (LocalProfile.model item) (LocalProfile.enabled item)
  | provider_value v =>
      LocalProfile.mk (LocalProfile.name item) v (LocalProfile.baseUrl item)
        (LocalProfile.apiKey item) (LocalProfile.model item) (LocalProfile.enabled item)
  | baseUrl_value v =>
      LocalProfile.mk (LocalProfile.name item) (LocalProfile.provider item) v
        (LocalProfile.apiKey item) (LocalProfile.model item) (LocalProfile.enabled item)
  | apiKey_value v =>
      LocalProfile.mk (LocalProfile.name item) (LocalProfile.provider item)
        (LocalProfile.baseUrl item) v (LocalProfile.model item) (LocalProfile.enabled item)
  | model_value v =>
      LocalProfile.mk (LocalProfile.name item) (LocalProfile.provider item)
        (LocalProfile.baseUrl item) (LocalProfile.apiKey item) v (LocalProfile.enabled item)
  | enabled_value v =>
      LocalProfile.mk (LocalProfile.name item) (LocalProfile.provider item)
        (LocalProfile.baseUrl item) (LocalProfile.apiKey item) (LocalProfile.model item) v
  end.

(** [previous.map((item, index) => index === activeProfileIndex ? {...} : item)]. *)
Definition setProfileField (kv : FieldValue) (s : ShellState) : ShellState :=
  setProfiles
    (imap (λ index item,
             if decide (index = activeProfileIndex s) then with_field kv item
             else item)
          (profiles s))
    s.

(** [Array.prototype.filter] with the two-argument callback [(item, index)]. *)
Fixpoint ifilter {A} (f : nat → A → bool) (l : list A) : list A :=
  match l with
  | [] => []
  | x :: l' => if f 0 x then x :: ifilter (f ∘ S) l' else ifilter (f ∘ S) l'
  end.

(** The profile appended by [addProfile]; [n] is [previous.length]. *)
Definition newProfile (n : nat) : LocalProfile.t :=
  {| LocalProfile.name := "Profile " +:+ pretty (n + 1);
     LocalProfile.provider := "openai";
     LocalProfile.baseUrl := "https://api.openai.com/v1";
     LocalProfile.apiKey := "";
     LocalProfile.model := "gpt-4.1-mini";
     LocalProfile.enabled := true |}.

Definition addProfile (s : ShellState) : ShellState :=
  let previous := profiles s in
  setActiveProfileIndex (length (profiles s))
    (setProfiles (previous ++ [newProfile (length previous)]) s).

(** [Math.max(0, previous - 1)] on a non-negative index: the subtraction of
    [nat] stops at [0], which is also what the [max] with [0] yields. *)
Definition removeProfile (s : ShellState) : ShellState :=
  if decide (length (profiles s) ≤ 1) then s
  else
    setActiveProfileIndex (Nat.max 0 (activeProfileIndex s - 1))
      (setProfiles
         (ifilter (λ index _, bool_decide (index ≠ activeProfileIndex s))
                  (profiles s))
         s).

(** The Profile selector: [setActiveProfileIndex(Number(event.target.value))],
    where the option values are the indices of the rendered profiles. *)
Definition selectProfile (i : nat) (s : ShellState) : ShellState :=
  setActiveProfileIndex i s.

(** ** The Tauri operation surface *)

(** The two commands this component invokes. *)
Inductive Command : Type := load_profiles | save_profiles.

Definition command_name (c : Command) : string :=
  match c with
  | load_profiles => "load_profiles"
  | save_profiles => "save_profiles"
  end.

(** The [args] object of an invocation: [{ passphrase }] for [load_profiles],
    [{ passphrase, profiles }] for [save_profiles]. *)
Record LoadArgs : Type := mkLoadArgs {
  load_passphrase : string
}.

Record SaveArgs : Type := mkSaveArgs {
  save_passphrase : string;
  save_payloads : list ProviderProfilePayload.t
}.

Definition Args (c : Command) : Type :=
  match c with
  | load_profiles => LoadArgs
  | save_profiles => SaveArgs
  end.

(** The type at which the component reads a command's resolved value:
    [invokeTauri<ProviderProfilePayload[]>] for [load_profiles]; the value of
    [save_profiles] is awaited and dropped. *)
Definition Reply (c : Command) : Type :=
  match c with
  | load_profiles => list ProviderProfilePayload.t
  | save_profiles => unit
  end.

(** What a rejected promise carries into [catch (error)]: an [Error] object
    with its [message], or any other value. *)
Inductive Thrown : Type :=
| ErrorObject (message : string)
| NonError (value : string).

Inductive Settled (T : Type) : Type :=
| Resolved (v : T)
| Rejected (e : Thrown).
Arguments Resolved {T} v.
Arguments Rejected {T} e.

(** [window.__TAURI__.core.invoke] over a backend with state [B]. *)
Definition Invoke (B : Type) : Type :=
  ∀ c : Command, Args c → B → Settled (Reply c) * B.

(** [invokeTauri]: [tauri] is [window.__TAURI__?.core?.invoke], [None] when
    any link of the chain is missing. *)
Definition invokeTauri {B} (tauri : option (Invoke B)) (c : Command)
    (args : Args c) (b : B) : Settled (Reply c) * B :=
  match tauri with
  | None =>
      (Rejected
         (ErrorObject "Tauri runtime is unavailable in browser preview mode."),
       b)
  | Some invoke => invoke c args b
  end.

(** [error instanceof Error ? error.message : fallback]. *)
Definition error_message (error : Thrown) (fallback : string) : string :=
  match error with
  | ErrorObject message => message
  | NonError _ => fallback
  end.

(** ** Asynchronous handlers *)

(** The body of [handleLoadProfiles] after the [await]: the [try] branch on a
    resolved value, the [catch] branch on a rejection, then [finally]. *)
Definition loadSettled (r : Settled (list ProviderProfilePayload.t))
    (s : ShellState) : ShellState :=
  let s' :=
    match r with
    | Resolved loaded =>
        if decide (length loaded = 0) then
          setStatusMessage
            "No encrypted profiles found. Save one to create your settings vault."
            (setStatusTone tone_info s)
        else
          setStatusMessage
            ("Loaded " +:+ pretty (length loaded) +:+ " encrypted profile(s).")
            (setStatusTone tone_success
               (setActiveProfileIndex 0
                  (setProfiles (toLocalProfile <$> loaded) s)))
    | Rejected error =>
        setStatusMessage
          (error_message error "Failed to load profiles from encrypted store.")
          (setStatusTone tone_error s)
    end in
  setIsWorking false s'.

Definition handleLoadProfiles {B} (tauri : option (Invoke B))
    (s : ShellState) (b : B) : ShellState * B :=
  let s0 := setIsWorking true s in
  let '(r, b') :=
    invokeTauri tauri load_profiles
      {| load_passphrase := passphrase s |} b in
  (loadSettled r s0, b').

(** The body of [handleSaveProfiles] after the [await]; [sent] is the
    [profiles] array of the render the handler closed over. *)
Definition saveSettled (sent : list LocalProfile.t) (r : Settled unit)
    (s : ShellState) : ShellState :=
  let s' :=
    match r with
    | Resolved _ =>
        setStatusMessage
          ("Saved " +:+ pretty (length sent) +:+ " profile(s) to encrypted storage.")
          (setStatusTone tone_success s)
    | Rejected error =>
        setStatusMessage
          (error_message error "Failed to save profiles into encrypted store.")
          (setStatusTone tone_error s)
    end in
  setIsWorking false s'.

Definition handleSaveProfiles {B} (tauri : option (Invoke B))
    (s : ShellState) (b : B) : ShellState * B :=
  let s0 := setIsWorking true s in
  let '(r, b') :=
    invokeTauri tauri save_profiles
      {| save_passphrase := passphrase s;
         save_payloads := toPayload <$> profiles s |} b in
  (saveSettled (profiles s) r s0, b').

(** ** Sequences of user actions *)

Inductive ProfileOp : Type := OpAdd | OpRemove.

Definition apply_op (s : ShellState) (op : ProfileOp) : ShellState :=
  match op with
  | OpAdd => addProfile s
  | OpRemove => removeProfile s
  end.

Definition run_ops (ops : list ProfileOp) (s : ShellState) : ShellState :=
  foldl apply_op s ops.

(** Everything the settings pane lets the user do. *)
Inductive Action : Type :=
| EditPassphrase (v : string)
| SelectProfile (i : nat)
| EditField (kv : FieldValue)
| AddProfile
| RemoveProfile
| LoadProfiles
| SaveProfiles.

Definition act {B} (tauri : option (Invoke B)) (a : Action)
    (st : ShellState * B) : ShellState * B :=
  match a with
  | EditPassphrase v => (setPassphrase v st.1, st.2)
  | SelectProfile i => (selectProfile i st.1, st.2)
  | EditField kv => (setProfileField kv st.1, st.2)
  | AddProfile => (addProfile st.1, st.2)
  | RemoveProfile => (removeProfile st.1, st.2)
  | LoadProfiles => handleLoadProfiles tauri st.1 st.2
  | SaveProfiles => handleSaveProfiles tauri st.1 st.2
  end.

(** What the rendered controls offer in state [s]: the Profile selector has
    one option per profile, its value the index; the Provider selector has
    one option per entry of [providerChoices]; the Load and Save buttons are
    disabled while [isWorking]. *)
Definition offered (s : ShellState) (a : Action) : Prop :=
  match a with
  | SelectProfile i => i < length (profiles s)
  | EditField (provider_value v) => v ∈ providerValues
  | LoadProfiles | SaveProfiles => isWorking s = false
  | _ => True
  end.

(** The states the pane can be in, over a given runtime and a backend that
    starts in [b0]. *)
Inductive reachable {B} (tauri : option (Invoke B)) (b0 : B)
    : ShellState * B → Prop :=
| reachable_initial : reachable tauri b0 (initialState, b0)
| reachable_act st a :
    reachable tauri b0 st → offered st.1 a → reachable tauri b0 (act tauri a st).




End Shell.

(** ** The credential vault behind the two commands *)

Module Vault.

Import Shell.

(** Modelled from the spec: the error kinds of the vault (section 7,
    [CryptoError]).  Missing is the whole backend of the two commands: the
    Tauri command handlers [load_profiles] and [save_profiles] and the vault
    they call ([secure_config], [profile_store] of the core crate); the
    component above is their only caller at hand. *)
Inductive CryptoError : Type :=
| WrongPassphraseOrCorruptData
| SerializationFailed.

(** Modelled from the spec: what [save_profiles] can answer besides [ok]: a
    [CryptoError], or the rejection of a list whose names are not unique
    (section 3, "reject on save"). *)
Inductive VaultError : Type :=
| Crypto (e : CryptoError)
| NameConflict.

(** Modelled from the spec: the primitives the vault depends on (section 2:
    "a key-derivation + authenticated-encryption primitive only"), the
    serialization of a profile list, and the source of fresh salts and
    nonces.  The two laws are the ones every such primitive has: opening
    what was sealed under the same key and nonce returns the plaintext, and
    reading back what was serialized returns the list. *)
Record Primitives : Type := mkPrimitives {
  Key : Type;
  Salt : Type;
  Nonce : Type;
  Plain : Type;
  Cipher : Type;
  derive_key : string → Salt → Key;
  seal : Key → Nonce → Plain → Cipher;
  unseal : Key → Nonce → Cipher → option Plain;
  serialize : list ProviderProfilePayload.t → option Plain;
  deserialize : Plain → option (list ProviderProfilePayload.t);
  fresh : nat → Salt * Nonce;
  unseal_seal : ∀ k n m, unseal k n (seal k n m) = Some m;
  deserialize_serialize : ∀ l m, serialize l = Some m → deserialize m = Some l
}.

(** Modelled from the spec: [VaultEnvelope] (section 3): format version,
    salt, nonce, ciphertext with its authentication tag. *)
Record Envelope (P : Primitives) : Type := mkEnvelope {
  version : nat;
  salt : Salt P;
  nonce : Nonce P;
  ciphertext : Cipher P
}.
Arguments mkEnvelope {P} _ _ _ _.
Arguments version {P} _.
Arguments salt {P} _.
Arguments nonce {P} _.
Arguments ciphertext {P} _.

Definition format_version : nat := 1.

(** Modelled from the spec: [save(passphrase, profiles)] of section 4.2, with
    the freshly generated salt and nonce as arguments. *)
Definition save (P : Primitives) (rnd : Salt P * Nonce P) (pass : string)
    (l : list ProviderProfilePayload.t) : CryptoError + Envelope P :=
  match serialize P l with
  | None => inl SerializationFailed
  | Some m =>
      let k := derive_key P pass (rnd.1) in
      inr (mkEnvelope format_version rnd.1 rnd.2 (seal P k rnd.2 m))
  end.

(** Modelled from the spec: [load(passphrase, envelope)] of section 4.2. *)
Definition load (P : Primitives) (pass : string) (e : Envelope P)
    : CryptoError + list ProviderProfilePayload.t :=
  if decide (version e = format_version) then
    match unseal P (derive_key P pass (salt e)) (nonce e) (ciphertext e) with
    | None => inl WrongPassphraseOrCorruptData
    | Some m =>
        match deserialize P m with
        | None => inl SerializationFailed
        | Some l => inr l
        end
    end
  else inl WrongPassphraseOrCorruptData.

(** Modelled from the spec: the persisted state, "exactly one encrypted vault
    blob on disk" (section 6), absent before the first save, and the number of
    salt and nonce pairs drawn so far. *)
Record Store (P : Primitives) : Type := mkStore {
  blob : option (Envelope P);
  drawn : nat
}.
Arguments mkStore {P} _ _.
Arguments blob {P} _.
Arguments drawn {P} _.

Definition names (l : list ProviderProfilePayload.t) : list string :=
  ProviderProfilePayload.name <$> l.

(** Modelled from the spec: the operation [save_profiles(passphrase, list)]
    of section 6: a list with a repeated name is rejected, otherwise the blob
    is rewritten wholesale. *)
Definition save_op (P : Primitives) (pass : string)
    (l : list ProviderProfilePayload.t) (st : Store P)
    : (VaultError + unit) * Store P :=
  if decide (NoDup (names l)) then
    match save P (fresh P (drawn st)) pass l with
    | inl e => (inl (Crypto e), mkStore (blob st) (S (drawn st)))
    | inr env => (inr (), mkStore (Some env) (S (drawn st)))
    end
  else (inl NameConflict, st).

(** Modelled from the spec: the operation [load_profiles(passphrase)] of
    section 6.  Before the first save there is no blob and the answer is the
    empty list, the case the caller reports as "No encrypted profiles
    found". *)
Definition load_op (P : Primitives) (pass : string) (st : Store P)
    : VaultError + list ProviderProfilePayload.t :=
  match blob st with
  | None => inr []
  | Some env =>
      match load P pass env with
      | inl e => inl (Crypto e)
      | inr l => inr l
      end
  end.

(** Modelled from the spec: the two operations as the commands behind
    [invoke]; [report] is how an error reaches the caller's [catch]. *)
Definition commands (P : Primitives) (report : VaultError → Thrown)
    : Invoke (Store P) :=
  λ c,
    match c return Args c → Store P → Settled (Reply c) * Store P with
    | load_profiles => λ args st,
        match load_op P (load_passphrase args) st with
        | inl e => (Rejected (report e), st)
        | inr l => (Resolved l, st)
        end
    | save_profiles => λ args st,
        match save_op P (save_passphrase args) (save_payloads args) st with
        | (inl e, st') => (Rejected (report e), st')
        | (inr _, st') => (Resolved (), st')
        end
    end.

(** A small instance of the primitives: the key is the passphrase next to
    the salt, a sealed box records key and nonce, and opening checks both. *)
Definition toy_unseal (k : string * nat) (n : nat)
    (c : (string * nat) * nat * list ProviderProfilePayload.t)
    : option (list ProviderProfilePayload.t) :=
  if decide (c.1.1 = k ∧ c.1.2 = n) then Some c.2 else None.

Definition toy_unseal_seal (k : string * nat) (n : nat)
    (m : list ProviderProfilePayload.t) : toy_unseal k n (k, n, m) = Some m :=
  match decide (k = k ∧ n = n) as d
        return (if d then Some m else None) = Some m with
  | left _ => eq_refl
  | right H => match H (conj eq_refl eq_refl) with end
  end.

Definition toy : Primitives :=
  {| Key := string * nat;
     Salt := nat;
     Nonce := nat;
     Plain := list ProviderProfilePayload.t;
     Cipher := (string * nat) * nat * list ProviderProfilePayload.t;
     derive_key := λ pass s, (pass, s);
     seal := λ k n m, (k, n, m);
     unseal := toy_unseal;
     serialize := Some;
     deserialize := Some;
     fresh := λ i, (i, i + 100);
     unseal_seal := toy_unseal_seal;
     deserialize_serialize := λ l m H, eq_sym H |}.


End Vault.

(** ** Test doubles for the backend *)

Module Doubles.

Import Shell.

(** A backend that answers every [load_profiles] and every [save_profiles]
    with a fixed settled promise. *)
Definition canned (on_load : Settled (list ProviderProfilePayload.t))
    (on_save : Settled unit) : Invoke unit :=
  λ c,
    match c return Args c → unit → Settled (Reply c) * unit with
    | load_profiles => λ _ b, (on_load, b)
    | save_profiles => λ _ b, (on_save, b)
    end.

(** One received invocation: the command and its [args] object. *)
Inductive Call : Type :=
| CallOf (c : Command) (args : Args c).

(** A backend that forwards to [inner] and appends each invocation it
    receives to a log. *)
Definition recording {B} (inner : Invoke B) : Invoke (B * list Call) :=
  λ c args st,
    let '(r, b') := inner c args st.1 in
    (r, (b', st.2 ++ [CallOf c args])).

Definition work : ProviderProfilePayload.t :=
  ProviderProfilePayload.mk "work" "claude" "https://api.anthropic.com/v1"
    "k1" "claude-sonnet-4-5" true.

Definition home : ProviderProfilePayload.t :=
  ProviderProfilePayload.mk "home" "relay" "https://relay.example/v1"
    "k2" "gpt-4o-mini" false.



End Doubles.

(** ** Views without secrets *)

Module Secrets.

Import Shell.






End Secrets.

(** ** Provider kinds *)

Module Kinds.

Import Shell.





End Kinds.

(** ** The rendered form *)

Module Form.

Import Shell.

(** The literal after [??] in [safeProfile]. *)
Definition blankProfile : LocalProfile.t :=
  {| LocalProfile.name := "";
     LocalProfile.provider := "openai";
     LocalProfile.baseUrl := "";
     LocalProfile.apiKey := "";
     LocalProfile.model := "";
     LocalProfile.enabled := true |}.

(** [profiles[activeProfileIndex] ?? profiles[0]]; [None] is [undefined]. *)
Definition activeProfile (s : ShellState) : option LocalProfile.t :=
  match profiles s !! activeProfileIndex s with
  | Some p => Some p
  | None => profiles s !! 0
  end.

(** [activeProfile ?? { name: "", provider: "openai", ... }]: the profile
    whose fields fill the inputs of the form. *)
Definition safeProfile (s : ShellState) : LocalProfile.t :=
  match activeProfile s with
  | Some p => p
  | None => blankProfile
  end.

(** The React key of a Profile option, [`${profile.name}-${index}`]. *)
Definition optionKey (profile : LocalProfile.t) (index : nat) : string :=
  LocalProfile.name profile +:+ "-" +:+ pretty index.

(** The keys of the options of the Profile selector, in rendering order. *)
Definition optionKeys (s : ShellState) : list string :=
  imap (λ index profile, optionKey profile index) (profiles s).

(** Whether two arguments of [setProfileField] carry the same key. *)
Definition same_key (kv1 kv2 : FieldValue) : bool :=
  match kv1, kv2 with
  | name_value _, name_value _
  | provider_value _, provider_value _
  | baseUrl_value _, baseUrl_value _
  | apiKey_value _, apiKey_value _
  | model_value _, model_value _
  | enabled_value _, enabled_value _ => true
  | _, _ => false
  end.

(** The Load and Save buttons, the two actions that reach the backend. *)
Definition backend_action (a : Action) : bool :=
  match a with
  | LoadProfiles | SaveProfiles => true
  | _ => false
  end.

(** A sequence of actions, each handler run to completion. *)
Definition run_actions {B} (tauri : option (Invoke B)) (acts : list Action)
    (st : ShellState * B) : ShellState * B :=
  foldl (λ st a, act tauri a st) st acts.

(** Whether the character occurs in the string. *)
Fixpoint has_char (c : Ascii.ascii) (s : string) : bool :=
  match s with
  | EmptyString => false
  | String c' rest => if decide (c' = c) then true else has_char c rest
  end.

End Form.

(** ** The asynchronous handlers with their [await] made visible *)

Module Async.

Import Shell.

(** A handler suspended at its [await]: the promise it waits for, here with
    the value it will settle with, and for [handleSaveProfiles] the
    [profiles] array of the render the handler closed over. *)
Inductive Pending : Type :=
| PendingLoad (r : Settled (list ProviderProfilePayload.t))
| PendingSave (sent : list LocalProfile.t) (r : Settled unit).

(** The component state, the backend, and the handlers that are suspended. *)
Record Pane (B : Type) : Type := mkPane {
  view : ShellState;
  backend : B;
  inflight : list Pending
}.
Arguments mkPane {B} _ _ _.
Arguments view {B} _.
Arguments backend {B} _.
Arguments inflight {B} _.

(** One user action, up to the first [await] of the handler: the two
    asynchronous handlers set the working flag, issue their invocation and
    suspend; the other handlers run as before. *)
Definition click {B} (tauri : option (Invoke B)) (a : Action) (p : Pane B)
    : Pane B :=
  match a with
  | LoadProfiles =>
      let '(r, b') :=
        invokeTauri tauri load_profiles
          {| load_passphrase := passphrase (view p) |} (backend p) in
      mkPane (setIsWorking true (view p)) b' (inflight p ++ [PendingLoad r])
  | SaveProfiles =>
      let '(r, b') :=
        invokeTauri tauri save_profiles
          {| save_passphrase := passphrase (view p);
             save_payloads := toPayload <$> profiles (view p) |} (backend p) in
      mkPane (setIsWorking true (view p)) b'
             (inflight p ++ [PendingSave (profiles (view p)) r])
  | _ => mkPane (act tauri a (view p, backend p)).1 (backend p) (inflight p)
  end.

(** The rest of a suspended handler, run on the state of the moment. *)
Definition resume (k : Pending) (s : ShellState) : ShellState :=
  match k with
  | PendingLoad r => loadSettled r s
  | PendingSave sent r => saveSettled sent r s
  end.

(** The [i]-th suspended handler resumes. *)
Definition settle {B} (i : nat) (p : Pane B) : Pane B :=
  match inflight p !! i with
  | Some k => mkPane (resume k (view p)) (backend p) (delete i (inflight p))
  | None => p
  end.

Inductive Event : Type :=
| Click (a : Action)
| Settle (i : nat).

Definition step {B} (tauri : option (Invoke B)) (e : Event) (p : Pane B)
    : Pane B :=
  match e with
  | Click a => click tauri a p
  | Settle i => settle i p
  end.

(** A click needs its control to be offered (the Load and Save buttons are
    [disabled] while [isWorking]); a handler resumes only if suspended. *)
Definition enabled {B} (p : Pane B) (e : Event) : Prop :=
  match e with
  | Click a => offered (view p) a
  | Settle i => i < length (inflight p)
  end.

Definition start {B} (b0 : B) : Pane B := mkPane initialState b0 [].

Inductive reachable {B} (tauri : option (Invoke B)) (b0 : B)
    : Pane B → Prop :=
| reachable_start : reachable tauri b0 (start b0)
| reachable_step p e :
    reachable tauri b0 p → enabled p e → reachable tauri b0 (step tauri e p).

(** A run of synchronous edits only. *)
Definition edits {B} (tauri : option (Invoke B)) (acts : list Action)
    (p : Pane B) : Pane B :=
  foldl (λ p a, click tauri a p) p acts.

End Async.

(** * Properties *)

Import Shell Doubles Secrets Kinds.

(** ** The handlers on small inputs *)

Example addProfile_twice :
  let s := addProfile (addProfile initialState) in
  LocalProfile.name <$> profiles s = ["Primary OpenAI"; "Profile 2"; "Profile 3"]
  ∧ activeProfileIndex s = 2.
Proof. by vm_compute. Qed.

Example removeProfile_selected :
  let s := removeProfile (selectProfile 1 (addProfile (addProfile initialState))) in
  LocalProfile.name <$> profiles s = ["Primary OpenAI"; "Profile 3"]
  ∧ activeProfileIndex s = 0.
Proof. by vm_compute. Qed.

Example removeProfile_last_one : removeProfile initialState = initialState.
Proof. reflexivity. Qed.

Example setProfileField_selected :
  let s := setProfileField (model_value "gpt-4o")
             (selectProfile 0 (addProfile initialState)) in
  LocalProfile.model <$> profiles s = ["gpt-4o"; "gpt-4.1-mini"].
Proof. by vm_compute. Qed.

Example load_two_message :
  let s := (handleLoadProfiles
              (Some (canned (Resolved [work; home]) (Resolved ())))
              initialState ()).1 in
  statusMessage s = "Loaded 2 encrypted profile(s)."
  ∧ statusTone s = tone_success ∧ isWorking s = false.
Proof. by vm_compute. Qed.

Example save_one_message :
  let s := (handleSaveProfiles
              (Some (canned (Resolved []) (Resolved ())))
              initialState ()).1 in
  statusMessage s = "Saved 1 profile(s) to encrypted storage."
  ∧ statusTone s = tone_success ∧ isWorking s = false.
Proof. by vm_compute. Qed.

Example save_rejected_with_value :
  let s := (handleSaveProfiles
              (Some (canned (Resolved []) (Rejected (NonError "denied"))))
              initialState ()).1 in
  statusMessage s = "Failed to save profiles into encrypted store."
  ∧ statusTone s = tone_error.
Proof. by vm_compute. Qed.

(** ** Index-aware list operations against their stdpp counterparts *)

Lemma ifilter_ext {A} (f g : nat → A → bool) (l : list A) :
  (∀ i x, f i x = g i x) → ifilter f l = ifilter g l.
Proof.
  revert f g. induction l as [|x l IH]; intros f g Hfg; simpl; [done|].
  rewrite Hfg. rewrite (IH (f ∘ S) (g ∘ S)); [done|].
  intros i y. apply Hfg.
Qed.

Lemma ifilter_all {A} (f : nat → A → bool) (l : list A) :
  (∀ i x, f i x = true) → ifilter f l = l.
Proof.
  revert f. induction l as [|x l IH]; intros f Hf; simpl; [done|].
  rewrite Hf. f_equal. apply IH. intros i y. apply Hf.
Qed.

(** Filtering out one index is deleting at that index. *)
Lemma ifilter_delete {A} (i : nat) (l : list A) :
  ifilter (λ index _, bool_decide (index ≠ i)) l = delete i l.
Proof.
  revert i. induction l as [|x l IH]; intros i; simpl; [done|].
  destruct i as [|i]; simpl.
  - apply ifilter_all. intros j y. done.
  - f_equal. rewrite <- IH. apply ifilter_ext. intros j y. simpl.
    apply bool_decide_ext. lia.
Qed.

(** Mapping with a test on the index is altering at that index. *)
Lemma imap_alter {A} (g : A → A) (i : nat) (l : list A) :
  imap (λ index item, if decide (index = i) then g item else item) l
  = alter g i l.
Proof.
  revert i. induction l as [|x l IH]; intros i; simpl; [done|].
  destruct i as [|i]; simpl.
  - f_equal. rewrite <- (list_fmap_id l) at 2. rewrite <- imap_const.
    apply imap_ext. intros j y _. done.
  - f_equal. change (list_alter g i l) with (alter g i l). rewrite <- IH.
    apply imap_ext. intros j y _.
    unfold compose. repeat case_decide; (done || lia).
Qed.

Lemma removeProfile_profiles (s : ShellState) :
  profiles (removeProfile s) =
    if decide (length (profiles s) ≤ 1) then profiles s
    else delete (activeProfileIndex s) (profiles s).
Proof.
  unfold removeProfile. case_decide; [done|]. simpl. apply ifilter_delete.
Qed.

Lemma setProfileField_profiles (kv : FieldValue) (s : ShellState) :
  profiles (setProfileField kv s)
  = alter (with_field kv) (activeProfileIndex s) (profiles s).
Proof. unfold setProfileField. simpl. apply imap_alter. Qed.

(** ** The selection invariant *)

(** The profile list is non-empty and the active index points into it. *)
Definition selection_ok (s : ShellState) : Prop :=
  profiles s ≠ [] ∧ activeProfileIndex s < length (profiles s).

Lemma selection_ok_initial : selection_ok initialState.
Proof. split; [done | simpl; lia]. Qed.

Lemma selection_ok_add (s : ShellState) :
  selection_ok (addProfile s).
Proof.
  unfold selection_ok, addProfile. simpl. split.
  - by destruct (profiles s).
  - rewrite length_app. simpl. lia.
Qed.

Lemma selection_ok_remove (s : ShellState) :
  selection_ok s → selection_ok (removeProfile s).
Proof.
  intros [Hne Hlt]. unfold selection_ok.
  rewrite removeProfile_profiles. unfold removeProfile.
  case_decide as Hlen; [done|]. simpl.
  assert (Hd : length (delete (activeProfileIndex s) (profiles s))
               = length (profiles s) - 1).
  { apply length_delete. by apply lookup_lt_is_Some. }
  split.
  - intros Hnil. rewrite Hnil in Hd. simpl in Hd. lia.
  - rewrite Hd. lia.
Qed.

Lemma selection_ok_run_ops (ops : list ProfileOp) (s : ShellState) :
  selection_ok s → selection_ok (run_ops ops s).
Proof.
  unfold run_ops. revert s.
  induction ops as [|op ops IH]; intros s Hs; simpl; [done|].
  apply IH. destruct op; simpl.
  - apply selection_ok_add.
  - by apply selection_ok_remove.
Qed.

(** [C10] Starting from the initial single-profile state, after every
    sequence of [addProfile] and [removeProfile] the profile list is
    non-empty and [activeProfileIndex] is an index into it.  Moreover
    [removeProfile] does nothing on a one-profile list, [addProfile] selects
    the profile it has just appended, and after [removeProfile] the selection
    is a profile that was in the list before. *)
Theorem add_remove_keep_selection (ops : list ProfileOp) :
  let s := run_ops ops initialState in
  1 ≤ length (profiles s)
  ∧ activeProfileIndex s < length (profiles s)
  ∧ (∀ t, length (profiles t) = 1 → removeProfile t = t)
  ∧ profiles (addProfile s) !! activeProfileIndex (addProfile s)
    = Some (newProfile (length (profiles s)))
  ∧ ∃ p, profiles (removeProfile s) !! activeProfileIndex (removeProfile s)
         = Some p
         ∧ p ∈ profiles s.
Proof.
  intros s.
  assert (Hs : selection_ok s)
    by (apply selection_ok_run_ops, selection_ok_initial).
  destruct Hs as [Hne Hlt].
  split; [lia|]. split; [done|]. split; [|split].
  - intros t Ht. unfold removeProfile. rewrite decide_True; [done | lia].
  - unfold addProfile. simpl.
    rewrite lookup_app_r; [|done]. by rewrite Nat.sub_diag.
  - destruct (selection_ok_remove s (conj Hne Hlt)) as [_ Hlt'].
    apply lookup_lt_is_Some_2 in Hlt' as [p Hp].
    exists p. split; [done|].
    apply list_elem_of_lookup_2 in Hp.
    rewrite removeProfile_profiles in Hp.
    case_decide; [done|]. by eapply list_elem_of_delete_inv.
Qed.

Lemma selection_ok_act {B} (tauri : option (Invoke B)) a st :
  offered st.1 a → selection_ok st.1 → selection_ok (act tauri a st).1.
Proof.
  intros Hoff [Hne Hlt]. destruct st as [s b]. simpl in *.
  destruct a as [v|i|kv| | | |]; simpl.
  - done.
  - split; [done|]. exact Hoff.
  - unfold selection_ok. rewrite setProfileField_profiles. simpl.
    rewrite length_alter. split; [|done].
    intros Hnil. apply (f_equal length) in Hnil.
    rewrite length_alter in Hnil. by destruct (profiles s).
  - apply selection_ok_add.
  - by apply selection_ok_remove.
  - unfold handleLoadProfiles.
    destruct (invokeTauri tauri load_profiles _ b) as [[l|e] b']; simpl;
      [|done].
    unfold loadSettled. case_decide as Hlen; simpl; [done|].
    destruct l as [|q l]; [done|]. split; [done | simpl; lia].
  - unfold handleSaveProfiles.
    by destruct (invokeTauri tauri save_profiles _ b) as [[u|e] b'].
Qed.

(** Whatever the runtime answers, the pane never shows an empty profile
    list nor a selection outside the list. *)
Lemma reachable_selection_ok {B} (tauri : option (Invoke B)) (b0 : B) st :
  reachable tauri b0 st → selection_ok st.1.
Proof.
  induction 1 as [|st a Hreach IH Hoff].
  - apply selection_ok_initial.
  - by apply selection_ok_act.
Qed.

(** ** Loading *)

(** [C4] When [load_profiles] resolves with a non-empty list, the profile
    state becomes exactly the returned payloads converted by
    [toLocalProfile], position by position and field by field, and the
    active index is reset to [0], the first of them. *)
Theorem load_replaces_profiles {B} (invoke : Invoke B) (s : ShellState)
    (b b' : B) (loaded : list ProviderProfilePayload.t) :
  invoke load_profiles {| load_passphrase := passphrase s |} b
    = (Resolved loaded, b') →
  loaded ≠ [] →
  let s' := (handleLoadProfiles (Some invoke) s b).1 in
  profiles s' = toLocalProfile <$> loaded
  ∧ length (profiles s') = length loaded
  ∧ (∀ i, profiles s' !! i = toLocalProfile <$> loaded !! i)
  ∧ (∀ q, LocalProfile.name (toLocalProfile q) = ProviderProfilePayload.name q
        ∧ LocalProfile.provider (toLocalProfile q) = ProviderProfilePayload.provider q
        ∧ LocalProfile.baseUrl (toLocalProfile q) = ProviderProfilePayload.base_url q
        ∧ LocalProfile.apiKey (toLocalProfile q) = ProviderProfilePayload.api_key q
        ∧ LocalProfile.model (toLocalProfile q) = ProviderProfilePayload.model q
        ∧ LocalProfile.enabled (toLocalProfile q) = ProviderProfilePayload.enabled q)
  ∧ activeProfileIndex s' = 0
  ∧ profiles s' !! activeProfileIndex s' = toLocalProfile <$> head loaded.
Proof.
  intros Hcall Hne s'. subst s'.
  unfold handleLoadProfiles. simpl. rewrite Hcall. simpl.
  unfold loadSettled. rewrite decide_False; [|by destruct loaded]. simpl.
  split; [done|]. split; [apply length_fmap|].
  split; [intros i; apply list_lookup_fmap|].
  split; [done|]. split; [done|].
  by destruct loaded.
Qed.

Lemma load_replaces_profiles_witness :
  profiles (handleLoadProfiles
              (Some (canned (Resolved [work; home]) (Resolved ())))
              initialState ()).1
  = [ LocalProfile.mk "work" "claude" "https://api.anthropic.com/v1"
        "k1" "claude-sonnet-4-5" true;
      LocalProfile.mk "home" "relay" "https://relay.example/v1"
        "k2" "gpt-4o-mini" false ].
Proof.
  exact (proj1 (load_replaces_profiles
                  (canned (Resolved [work; home]) (Resolved ()))
                  initialState () () [work; home] eq_refl
                  ltac:(discriminate))).
Defined.

(** [C8] When the [load_profiles] invocation is rejected, by the backend or
    by [invokeTauri] itself because the runtime is missing, the passphrase,
    the profile list and the active index are as before the call; the tone
    is the error tone, the message is the one of the rejection, and the
    working flag is [false]. *)
Theorem load_failure_keeps_profiles {B} (tauri : option (Invoke B))
    (s : ShellState) (b b' : B) (e : Thrown) :
  invokeTauri tauri load_profiles {| load_passphrase := passphrase s |} b
    = (Rejected e, b') →
  handleLoadProfiles tauri s b
  = ({| passphrase := passphrase s;
        profiles := profiles s;
        activeProfileIndex := activeProfileIndex s;
        isWorking := false;
        statusTone := tone_error;
        statusMessage :=
          error_message e "Failed to load profiles from encrypted store." |},
     b').
Proof.
  intros Hcall. unfold handleLoadProfiles. by rewrite Hcall.
Qed.

Lemma load_failure_keeps_profiles_witness :
  handleLoadProfiles (B := unit) None (addProfile initialState) ()
  = ({| passphrase := "";
        profiles := profiles (addProfile initialState);
        activeProfileIndex := 1;
        isWorking := false;
        statusTone := tone_error;
        statusMessage :=
          "Tauri runtime is unavailable in browser preview mode." |},
     ()).
Proof.
  exact (load_failure_keeps_profiles None (addProfile initialState) () ()
           (ErrorObject "Tauri runtime is unavailable in browser preview mode.")
           eq_refl).
Defined.

(** [C9] When [load_profiles] resolves with the empty list, the passphrase,
    the profile list and the active index are as before the call; only the
    status line changes, to the informational "No encrypted profiles found"
    text, and the working flag is [false].  In no state the pane reaches over
    that runtime is the profile list empty. *)
Theorem load_empty_keeps_profiles {B} (invoke : Invoke B) (s : ShellState)
    (b b' : B) :
  invoke load_profiles {| load_passphrase := passphrase s |} b
    = (Resolved [], b') →
  handleLoadProfiles (Some invoke) s b
  = ({| passphrase := passphrase s;
        profiles := profiles s;
        activeProfileIndex := activeProfileIndex s;
        isWorking := false;
        statusTone := tone_info;
        statusMessage :=
          "No encrypted profiles found. Save one to create your settings vault." |},
     b')
  ∧ (∀ b0 st, reachable (Some invoke) b0 st → 1 ≤ length (profiles st.1)).
Proof.
  intros Hcall. split.
  - unfold handleLoadProfiles. simpl. by rewrite Hcall.
  - intros b0 st Hreach.
    destruct (reachable_selection_ok _ _ _ Hreach) as [_ Hlt]. lia.
Qed.

(** A pane over an empty vault: the load from the initial state keeps the
    built-in default profile. *)
Lemma load_empty_keeps_profiles_witness :
  handleLoadProfiles (Some (canned (Resolved []) (Resolved ()))) initialState ()
  = ({| passphrase := "";
        profiles := initialProfiles;
        activeProfileIndex := 0;
        isWorking := false;
        statusTone := tone_info;
        statusMessage :=
          "No encrypted profiles found. Save one to create your settings vault." |},
     ()).
Proof.
  exact (proj1 (load_empty_keeps_profiles (canned (Resolved []) (Resolved ()))
                  initialState () () eq_refl)).
Defined.

(** ** Saving *)

(** [C5] Whatever the backend, [handleSaveProfiles] makes exactly one
    invocation: the command [save_profiles] with the current passphrase and
    the current profile list converted by [toPayload].  The payload list has
    the length and the order of the profile list, and each payload carries
    the six fields of its profile, camelCase names mapped to snake_case. *)
Theorem save_passes_all_profiles {B} (inner : Invoke B) (s : ShellState)
    (b : B) (log : list Call) :
  (handleSaveProfiles (Some (recording inner)) s (b, log)).2.2
  = log ++ [ CallOf save_profiles
               {| save_passphrase := passphrase s;
                  save_payloads := toPayload <$> profiles s |} ]
  ∧ command_name save_profiles = "save_profiles"
  ∧ length (toPayload <$> profiles s) = length (profiles s)
  ∧ (∀ i, (toPayload <$> profiles s) !! i = toPayload <$> profiles s !! i)
  ∧ (∀ p, ProviderProfilePayload.name (toPayload p) = LocalProfile.name p
        ∧ ProviderProfilePayload.provider (toPayload p) = LocalProfile.provider p
        ∧ ProviderProfilePayload.base_url (toPayload p) = LocalProfile.baseUrl p
        ∧ ProviderProfilePayload.api_key (toPayload p) = LocalProfile.apiKey p
        ∧ ProviderProfilePayload.model (toPayload p) = LocalProfile.model p
        ∧ ProviderProfilePayload.enabled (toPayload p) = LocalProfile.enabled p).
Proof.
  split.
  - unfold handleSaveProfiles, invokeTauri, recording. simpl.
    by destruct (inner save_profiles _ b).
  - split; [done|]. split; [apply length_fmap|].
    split; [intros i; apply list_lookup_fmap | done].
Qed.

(** ** What the status line depends on *)








(** ** Failure messages *)



(** ** Provider values *)







(** ** Across the operation surface *)

Lemma toLocalProfile_toPayload (p : LocalProfile.t) :
  toLocalProfile (toPayload p) = p.
Proof. by destruct p. Qed.

Lemma toPayload_toLocalProfile (q : ProviderProfilePayload.t) :
  toPayload (toLocalProfile q) = q.
Proof. by destruct q. Qed.

Lemma toLocalProfile_toPayload_list (l : list LocalProfile.t) :
  toLocalProfile <$> (toPayload <$> l) = l.
Proof.
  rewrite <- list_fmap_compose. rewrite <- (list_fmap_id l) at 2.
  apply list_fmap_ext. intros i p _. apply toLocalProfile_toPayload.
Qed.

(** Loading an envelope under the passphrase it was saved with. *)
Lemma load_save (P : Vault.Primitives) rnd pass l env :
  Vault.save P rnd pass l = inr env → Vault.load P pass env = inr l.
Proof.
  unfold Vault.save. destruct (Vault.serialize P l) as [m|] eqn:Hser; [|done].
  intros [= <-]. unfold Vault.load. simpl.
  rewrite Vault.unseal_seal.
  by rewrite (Vault.deserialize_serialize P l m Hser).
Qed.

(** A save that answers [ok] was given distinct names and has written a
    blob from which the same passphrase reads the same list. *)
Lemma save_op_ok (P : Vault.Primitives) pass l (st : Vault.Store P) :
  (Vault.save_op P pass l st).1 = inr () →
  NoDup (Vault.names l)
  ∧ Vault.load_op P pass (Vault.save_op P pass l st).2 = inr l.
Proof.
  unfold Vault.save_op. case_decide as Hnd; [|done].
  destruct (Vault.save P _ pass l) as [e|env] eqn:Hsave; [done|].
  intros _. split; [done|]. unfold Vault.load_op. simpl.
  by rewrite (load_save P _ pass l env Hsave).
Qed.

Lemma save_op_accepts (P : Vault.Primitives) pass l m (st : Vault.Store P) :
  NoDup (Vault.names l) → Vault.serialize P l = Some m →
  (Vault.save_op P pass l st).1 = inr ().
Proof.
  intros Hnd Hser. unfold Vault.save_op, Vault.save.
  rewrite decide_True; [|done]. by rewrite Hser.
Qed.

Lemma save_op_ok_iff (P : Vault.Primitives) pass l (st : Vault.Store P) :
  (Vault.save_op P pass l st).1 = inr ()
  ↔ NoDup (Vault.names l) ∧ is_Some (Vault.serialize P l).
Proof.
  split.
  - intros Hok. split; [by apply (save_op_ok P pass l st)|].
    revert Hok. unfold Vault.save_op, Vault.save.
    case_decide; [|done]. by destruct (Vault.serialize P l).
  - intros [Hnd [m Hser]]. by eapply save_op_accepts.
Qed.

(** [C1] With the vault behind the two commands: an envelope produced by
    [save] from any list under any passphrase is read back by [load] under
    that passphrase as the same list, and [save] produces one whenever the
    list serializes.  At the operation surface [save_profiles] answers [ok]
    exactly for the lists with distinct names that serialize, and after such
    a save [load_profiles] under the same passphrase answers the list that
    was saved.  [toLocalProfile] and [toPayload] are inverse to each other,
    so a successful save from the pane followed by a load leaves the pane's
    profile list as it was. *)
Theorem save_then_load_returns_profiles (P : Vault.Primitives)
    (report : Vault.VaultError → Thrown) (pass : string)
    (l : list ProviderProfilePayload.t) (st : Vault.Store P) :
  (∀ rnd env, Vault.save P rnd pass l = inr env → Vault.load P pass env = inr l)
  ∧ (∀ rnd, (∃ env, Vault.save P rnd pass l = inr env)
            ↔ is_Some (Vault.serialize P l))
  ∧ ((Vault.save_op P pass l st).1 = inr ()
     ↔ NoDup (Vault.names l) ∧ is_Some (Vault.serialize P l))
  ∧ ((Vault.save_op P pass l st).1 = inr () →
     Vault.load_op P pass (Vault.save_op P pass l st).2 = inr l)
  ∧ (∀ p, toLocalProfile (toPayload p) = p)
  ∧ (∀ q, toPayload (toLocalProfile q) = q)
  ∧ (∀ s, passphrase s = pass → toPayload <$> profiles s = l →
       let saved := handleSaveProfiles (Some (Vault.commands P report)) s st in
       let loaded := handleLoadProfiles (Some (Vault.commands P report))
                       saved.1 saved.2 in
       (statusTone saved.1 = tone_success
        ↔ NoDup (Vault.names l) ∧ is_Some (Vault.serialize P l))
       ∧ (statusTone saved.1 = tone_success → profiles loaded.1 = profiles s)).
Proof.
  split; [intros rnd env; apply load_save|].
  split.
  { intros rnd. unfold Vault.save.
    destruct (Vault.serialize P l) as [m|]; split.
    - eauto.
    - intros _. eauto.
    - intros [env Henv]. done.
    - intros [m Hm]. done. }
  split; [apply save_op_ok_iff|].
  split; [apply save_op_ok|].
  split; [apply toLocalProfile_toPayload|].
  split; [apply toPayload_toLocalProfile|].
  intros s <- <- saved loaded. subst loaded saved.
  pose proof (save_op_ok_iff P (passphrase s) (toPayload <$> profiles s) st)
    as Hiff.
  pose proof (save_op_ok P (passphrase s) (toPayload <$> profiles s) st)
    as Hload.
  unfold handleSaveProfiles, handleLoadProfiles. simpl.
  destruct (Vault.save_op P (passphrase s) (toPayload <$> profiles s) st)
    as [[e|[]] st'] eqn:Hsave; simpl in *.
  - split; [|done]. split; [done|]. intros H. by apply Hiff in H.
  - split; [by rewrite <- Hiff|]. intros _.
    destruct (Hload eq_refl) as [_ ->]. simpl.
    unfold loadSettled. case_decide as Hlen; simpl; [done|].
    apply toLocalProfile_toPayload_list.
Qed.

(** Scenario C of the specification on the small instance of the
    primitives: save under "p@ss", load under "p@ss" and under "wrong". *)
Lemma save_then_load_returns_profiles_witness :
  let st := Vault.save_op Vault.toy "p@ss" [work; home] (Vault.mkStore None 0) in
  st.1 = inr ()
  ∧ Vault.load_op Vault.toy "p@ss" st.2 = inr [work; home]
  ∧ Vault.load_op Vault.toy "wrong" st.2
    = inl (Vault.Crypto Vault.WrongPassphraseOrCorruptData).
Proof.
  intros st.
  pose proof (save_then_load_returns_profiles Vault.toy
                (λ _, NonError "vault error") "p@ss" [work; home]
                (Vault.mkStore None 0)) as (_ & _ & _ & Hload & _).
  split; [vm_compute; reflexivity|].
  split; [apply Hload; vm_compute; reflexivity|].
  vm_compute. reflexivity.
Defined.

(** [C3] With the vault behind the two commands, [save_profiles] on a list in
    which a name occurs twice answers with an error and leaves the stored
    blob as it was; the pane, which forwards its list unchecked, then shows
    the error tone.  A save that answers [ok] was given distinct names and
    stores the whole list: loading it back returns every profile. *)
Theorem save_rejects_repeated_names (P : Vault.Primitives)
    (report : Vault.VaultError → Thrown) (pass : string)
    (l : list ProviderProfilePayload.t) (st : Vault.Store P) :
  ¬ NoDup (Vault.names l) →
  Vault.save_op P pass l st = (inl Vault.NameConflict, st)
  ∧ (∀ s, passphrase s = pass → toPayload <$> profiles s = l →
       handleSaveProfiles (Some (Vault.commands P report)) s st
       = ({| passphrase := passphrase s;
             profiles := profiles s;
             activeProfileIndex := activeProfileIndex s;
             isWorking := false;
             statusTone := tone_error;
             statusMessage :=
               error_message (report Vault.NameConflict)
                 "Failed to save profiles into encrypted store." |},
          st))
  ∧ (∀ l' st', (Vault.save_op P pass l' st').1 = inr () →
       NoDup (Vault.names l')
       ∧ Vault.load_op P pass (Vault.save_op P pass l' st').2 = inr l').
Proof.
  intros Hdup.
  assert (Hrej : Vault.save_op P pass l st = (inl Vault.NameConflict, st)).
  { unfold Vault.save_op. by rewrite decide_False. }
  split; [done|]. split.
  - intros s <- <-. unfold handleSaveProfiles. simpl. by rewrite Hrej.
  - intros l' st'. apply save_op_ok.
Qed.

(** The pane reaches a list with a repeated name by its own buttons: add
    twice, select the second profile, remove it, add again.  Saving that
    list to the vault is refused and the blob stays absent. *)
Lemma save_rejects_repeated_names_witness :
  let s := addProfile (removeProfile (selectProfile 1
             (addProfile (addProfile initialState)))) in
  let out := handleSaveProfiles
               (Some (Vault.commands Vault.toy (λ _, NonError "vault error")))
               s (Vault.mkStore None 0) in
  LocalProfile.name <$> profiles s = ["Primary OpenAI"; "Profile 3"; "Profile 3"]
  ∧ statusTone out.1 = tone_error
  ∧ Vault.blob out.2 = None.
Proof.
  intros s out.
  assert (Hdup : ¬ NoDup (Vault.names (toPayload <$> profiles s))).
  { apply (bool_decide_unpack _). vm_compute. exact I. }
  pose proof (save_rejects_repeated_names Vault.toy
                (λ _, NonError "vault error") (passphrase s)
                (toPayload <$> profiles s) (Vault.mkStore None 0) Hdup) as H.
  split; [vm_compute; reflexivity|].
  subst out. rewrite (proj1 (proj2 H) s eq_refl eq_refl). by split.
Defined.

(** * Further properties of the component *)

Import Form Async.

(** ** Editing a field *)

Lemma setProfileField_alter (kv : FieldValue) (s : ShellState) :
  setProfileField kv s
  = setProfiles (alter (with_field kv) (activeProfileIndex s) (profiles s)) s.
Proof. unfold setProfileField. by rewrite imap_alter. Qed.

(** [X1] [setProfileField] touches the profile at the active index and nothing
    else: the list keeps its length, every other position keeps its
    profile, and the five other state cells are as before. *)
Theorem setProfileField_only_selected (kv : FieldValue) (s : ShellState) :
  let s' := setProfileField kv s in
  length (profiles s') = length (profiles s)
  ∧ (∀ j, profiles s' !! j
          = if decide (j = activeProfileIndex s)
            then with_field kv <$> profiles s !! j
            else profiles s !! j)
  ∧ passphrase s' = passphrase s
  ∧ activeProfileIndex s' = activeProfileIndex s
  ∧ isWorking s' = isWorking s
  ∧ statusTone s' = statusTone s
  ∧ statusMessage s' = statusMessage s.
Proof.
  intros s'. subst s'. rewrite setProfileField_alter. simpl.
  split; [apply length_alter|]. split; [|done].
  intros j. rewrite list_lookup_alter.
  repeat case_decide; subst; (done || congruence).
Qed.

(** [X2] With the active index past the end of the list, [setProfileField]
    changes nothing: no profile is edited and none is created. *)
Theorem setProfileField_out_of_range (kv : FieldValue) (s : ShellState) :
  length (profiles s) ≤ activeProfileIndex s →
  setProfileField kv s = s.
Proof.
  intros Hge. rewrite setProfileField_alter.
  assert (Hl : alter (with_field kv) (activeProfileIndex s) (profiles s)
               = profiles s).
  { apply list_eq. intros j. rewrite list_lookup_alter.
    case_decide; [|done]. subst j.
    by rewrite (lookup_ge_None_2 _ _ Hge). }
  rewrite Hl. by destruct s.
Qed.

Lemma setProfileField_out_of_range_witness :
  setProfileField (name_value "renamed") (selectProfile 3 initialState)
  = selectProfile 3 initialState.
Proof.
  apply (setProfileField_out_of_range (name_value "renamed")
           (selectProfile 3 initialState)).
  simpl. lia.
Defined.

Lemma with_field_same_key (kv1 kv2 : FieldValue) (p : LocalProfile.t) :
  same_key kv1 kv2 = true →
  with_field kv2 (with_field kv1 p) = with_field kv2 p.
Proof. by destruct kv1, kv2. Qed.

Lemma with_field_other_key (kv1 kv2 : FieldValue) (p : LocalProfile.t) :
  same_key kv1 kv2 = false →
  with_field kv2 (with_field kv1 p) = with_field kv1 (with_field kv2 p).
Proof. by destruct kv1, kv2. Qed.

(** [X3] Two edits in a row: on the same key the second value replaces the
    first, on different keys the order of the edits does not matter. *)
Theorem setProfileField_twice (kv1 kv2 : FieldValue) (s : ShellState) :
  setProfileField kv2 (setProfileField kv1 s)
  = if same_key kv1 kv2 then setProfileField kv2 s
    else setProfileField kv1 (setProfileField kv2 s).
Proof.
  destruct (same_key kv1 kv2) eqn:Hk;
    rewrite !setProfileField_alter; simpl;
    rewrite !list_alter_alter_eq; unfold setProfiles; simpl; f_equal;
    (apply list_alter_ext; [|done]); intros p _; simpl.
  - by apply with_field_same_key.
  - by apply with_field_other_key.
Qed.

(** ** What the form shows *)

(** [X4] With the selection inside the list, the inputs show an edit as soon as
    it is made, and the inputs of every other profile are as before. *)
Theorem form_shows_edit (kv : FieldValue) (s : ShellState) :
  activeProfileIndex s < length (profiles s) →
  safeProfile (setProfileField kv s) = with_field kv (safeProfile s)
  ∧ ∀ i, i ≠ activeProfileIndex s → i < length (profiles s) →
         safeProfile (selectProfile i (setProfileField kv s))
         = safeProfile (selectProfile i s).
Proof.
  intros Hlt.
  destruct (lookup_lt_is_Some_2 _ _ Hlt) as [p Hp].
  split.
  - unfold safeProfile, activeProfile. rewrite setProfileField_alter. simpl.
    by rewrite list_lookup_alter_eq, Hp.
  - intros i Hne Hi.
    destruct (lookup_lt_is_Some_2 _ _ Hi) as [q Hq].
    unfold safeProfile, activeProfile. rewrite setProfileField_alter. simpl.
    rewrite list_lookup_alter_ne; [|done]. by rewrite Hq.
Qed.

Lemma form_shows_edit_witness :
  safeProfile (setProfileField (model_value "gpt-4o") (addProfile initialState))
  = with_field (model_value "gpt-4o") (newProfile 1).
Proof.
  refine (proj1 (form_shows_edit (model_value "gpt-4o")
                   (addProfile initialState) _)).
  simpl. lia.
Defined.

(** [X5] In every state the pane reaches, whatever the runtime answers, the form
    shows the profile at the active index: neither fallback of
    [activeProfile] and [safeProfile] is ever taken. *)
Theorem form_shows_selected {B} (tauri : option (Invoke B)) (b0 : B)
    (st : ShellState * B) :
  Shell.reachable tauri b0 st →
  profiles st.1 !! activeProfileIndex st.1 = Some (safeProfile st.1).
Proof.
  intros Hreach.
  destruct (reachable_selection_ok _ _ _ Hreach) as [_ Hlt].
  destruct (lookup_lt_is_Some_2 _ _ Hlt) as [p Hp].
  unfold safeProfile, activeProfile. by rewrite Hp.
Qed.

Lemma form_shows_selected_witness :
  let tauri := Some (canned (Resolved [work; home]) (Resolved ())) in
  let st := act tauri (SelectProfile 1)
              (act tauri LoadProfiles (initialState, ())) in
  profiles st.1 !! 1 = Some (safeProfile st.1).
Proof.
  intros tauri st.
  apply (form_shows_selected tauri () st).
  apply Shell.reachable_act.
  - apply Shell.reachable_act; [apply Shell.reachable_initial | reflexivity].
  - simpl. lia.
Defined.

(** ** Adding and removing *)

(** [X6] On a list of two or more profiles [removeProfile] takes out the profile
    at the active index and no other: the profiles before it stay in place,
    the ones after it move up by one, and the selection moves to the
    profile that stood before the removed one (to the one that followed it
    when the first was removed).  The other state cells are as before. *)
Theorem removeProfile_removes_selected (s : ShellState) :
  2 ≤ length (profiles s) →
  let i := activeProfileIndex s in
  let s' := removeProfile s in
  profiles s' = take i (profiles s) ++ drop (S i) (profiles s)
  ∧ (∀ j, profiles s' !! j = profiles s !! (if decide (j < i) then j else S j))
  ∧ length (profiles s')
    = (if decide (i < length (profiles s)) then length (profiles s) - 1
       else length (profiles s))
  ∧ activeProfileIndex s' = i - 1
  ∧ (i < length (profiles s) →
     profiles s' !! activeProfileIndex s'
     = profiles s !! (if decide (i = 0) then 1 else i - 1))
  ∧ passphrase s' = passphrase s
  ∧ isWorking s' = isWorking s
  ∧ statusTone s' = statusTone s
  ∧ statusMessage s' = statusMessage s.
Proof.
  intros Hlen i s'. subst i s'.
  pose proof (removeProfile_profiles s) as Hp.
  unfold removeProfile in *.
  destruct (decide (length (profiles s) ≤ 1)) as [|_]; [lia|].
  rewrite Hp. simpl.
  split; [apply delete_take_drop|].
  split; [intros j; apply list_lookup_delete|].
  split.
  { case_decide as Hi.
    - apply length_delete. by apply lookup_lt_is_Some_2.
    - rewrite delete_take_drop, take_ge, drop_ge; [|lia..].
      by rewrite app_nil_r. }
  split; [lia|]. split; [|done].
  intros Hi. rewrite list_lookup_delete.
  f_equal. repeat case_decide; lia.
Qed.

Lemma removeProfile_removes_selected_witness :
  let s := selectProfile 1 (addProfile (addProfile initialState)) in
  profiles (removeProfile s) = take 1 (profiles s) ++ drop 2 (profiles s).
Proof.
  intros s.
  refine (proj1 (removeProfile_removes_selected s _)).
  simpl. lia.
Defined.

(** [X7] Removing right after adding undoes the addition: the list is the one
    before the two clicks, and the selection is on its last profile. *)
Theorem add_then_remove (s : ShellState) :
  profiles s ≠ [] →
  let s' := removeProfile (addProfile s) in
  profiles s' = profiles s
  ∧ activeProfileIndex s' = length (profiles s) - 1
  ∧ passphrase s' = passphrase s
  ∧ isWorking s' = isWorking s
  ∧ statusTone s' = statusTone s
  ∧ statusMessage s' = statusMessage s.
Proof.
  intros Hne s'. subst s'.
  assert (Hlen : 1 ≤ length (profiles s))
    by (destruct (profiles s); simpl; [done | lia]).
  pose proof (removeProfile_profiles (addProfile s)) as Hp.
  assert (Hadd : profiles (addProfile s)
                 = profiles s ++ [newProfile (length (profiles s))]) by done.
  assert (Hidx : activeProfileIndex (addProfile s) = length (profiles s))
    by done.
  rewrite Hidx, Hadd, length_app in Hp. simpl in Hp.
  destruct (decide (length (profiles s) + 1 ≤ 1)) as [|_]; [lia|].
  rewrite delete_middle, app_nil_r in Hp.
  split; [done|].
  unfold removeProfile. rewrite Hadd, Hidx, length_app. simpl.
  destruct (decide (length (profiles s) + 1 ≤ 1)) as [|_]; [lia|].
  simpl. split; [lia | done].
Qed.

Lemma add_then_remove_witness :
  profiles (removeProfile (addProfile initialState)) = initialProfiles.
Proof.
  refine (proj1 (add_then_remove initialState _)). discriminate.
Defined.

Lemma names_after_adds (n : nat) :
  LocalProfile.name <$> profiles (Nat.iter n addProfile initialState)
  = "Primary OpenAI" :: ((λ k, "Profile " +:+ pretty (k + 2)) <$> seq 0 n).
Proof.
  induction n as [|n IH]; [done|].
  assert (Hlen : length (profiles (Nat.iter n addProfile initialState)) = S n).
  { rewrite <- (length_fmap LocalProfile.name), IH. simpl.
    by rewrite length_fmap, length_seq. }
  change (Nat.iter (S n) addProfile initialState)
    with (addProfile (Nat.iter n addProfile initialState)).
  set (t := Nat.iter n addProfile initialState) in *.
  change (profiles (addProfile t))
    with (profiles t ++ [newProfile (length (profiles t))]).
  rewrite fmap_app, IH, Hlen, seq_S, fmap_app.
  change (LocalProfile.name <$> [newProfile (S n)])
    with ["Profile " +:+ pretty (S n + 1)].
  replace (S n + 1) with (0 + n + 2) by lia. done.
Qed.

(** [X8] Adding alone never repeats a name: after any number of Add clicks from
    the initial state, the names of the profiles are pairwise distinct. *)
Theorem adds_give_distinct_names (n : nat) :
  let s := Nat.iter n addProfile initialState in
  length (profiles s) = n + 1
  ∧ NoDup (LocalProfile.name <$> profiles s).
Proof.
  intros s. subst s. split.
  - rewrite <- (length_fmap LocalProfile.name), names_after_adds. simpl.
    rewrite length_fmap, length_seq. lia.
  - rewrite names_after_adds. apply NoDup_cons. split.
    + intros Hin. apply list_elem_of_fmap in Hin as (k & Hk & _).
      discriminate Hk.
    + apply NoDup_fmap_2; [|apply NoDup_seq].
      intros k1 k2 Heq. simpl in Heq.
      apply (inj (String.app "Profile ")) in Heq.
      apply (inj pretty) in Heq. lia.
Qed.

(** ** The keys of the Profile options *)

Lemma has_char_pretty_N_go (x : N) (s : string) :
  has_char "-"%char (pretty_N_go x s) = has_char "-"%char s.
Proof.
  revert s. induction (N.lt_wf_0 x) as [x _ IH]; intros s.
  assert (x = 0 ∨ 0 < x)%N as [->|Hpos] by lia.
  - by rewrite pretty_N_go_0.
  - rewrite pretty_N_go_step by done.
    rewrite IH by (by apply N.div_lt).
    simpl. unfold pretty_N_char. by repeat case_match.
Qed.

(** The decimal rendering of an index has no hyphen. *)
Lemma has_char_pretty (n : nat) : has_char "-"%char (pretty n) = false.
Proof.
  unfold pretty, pretty_nat, pretty, pretty_N.
  case_decide; [done|]. by rewrite has_char_pretty_N_go.
Qed.

Lemma has_char_after (c : Ascii.ascii) (s d : string) :
  has_char c (s +:+ String c d) = true.
Proof.
  induction s as [|c' s IH]; simpl.
  - by rewrite decide_True.
  - case_decide; [done | apply IH].
Qed.

(** A string is cut in one way only at its last hyphen. *)
Lemma split_at_last_hyphen (s1 s2 d1 d2 : string) :
  has_char "-"%char d1 = false → has_char "-"%char d2 = false →
  s1 +:+ String "-"%char d1 = s2 +:+ String "-"%char d2 →
  s1 = s2 ∧ d1 = d2.
Proof.
  intros H1 H2. revert s2.
  induction s1 as [|c1 s1 IH]; intros [|c2 s2] Heq.
  - change (String "-"%char d1 = String "-"%char d2) in Heq.
    by injection Heq.
  - change (String "-"%char d1 = String c2 (s2 +:+ String "-"%char d2)) in Heq.
    injection Heq as <- ->.
    by rewrite (has_char_after "-"%char s2 d2) in H1.
  - change (String c1 (s1 +:+ String "-"%char d1) = String "-"%char d2) in Heq.
    injection Heq as -> <-.
    by rewrite (has_char_after "-"%char s1 d1) in H2.
  - change (String c1 (s1 +:+ String "-"%char d1)
            = String c2 (s2 +:+ String "-"%char d2)) in Heq.
    injection Heq as -> Heq. destruct (IH _ Heq) as [-> ->]. done.
Qed.

(** [X9] The React keys of the options of the Profile selector are pairwise
    distinct in every state, also when two profiles have the same name and
    when a name itself ends in a hyphen and digits. *)
Theorem option_keys_distinct (s : ShellState) :
  NoDup (optionKeys s) ∧ length (optionKeys s) = length (profiles s).
Proof.
  unfold optionKeys. split; [|apply length_imap].
  apply NoDup_alt. intros i j key Hi Hj.
  rewrite list_lookup_imap in Hi, Hj.
  destruct (profiles s !! i) as [p|]; [|done].
  destruct (profiles s !! j) as [q|]; [|done].
  simpl in Hi, Hj. injection Hi as <-. injection Hj as Hj.
  unfold optionKey in Hj.
  change (LocalProfile.name q +:+ String "-"%char (pretty j)
          = LocalProfile.name p +:+ String "-"%char (pretty i)) in Hj.
  apply split_at_last_hyphen in Hj as [_ Hj]; try apply has_char_pretty.
  symmetry. by apply (inj pretty).
Qed.

(** ** What the two handlers send and what they leave alone *)

(** [X10] Whatever the runtime and the backend do, [handleSaveProfiles] leaves the
    passphrase, the profile list and the selection as they were, ends with
    the working flag off, and reports success or error, never the
    informational tone. *)
Theorem save_keeps_profiles {B} (tauri : option (Invoke B)) (s : ShellState)
    (b : B) :
  let out := handleSaveProfiles tauri s b in
  passphrase out.1 = passphrase s
  ∧ profiles out.1 = profiles s
  ∧ activeProfileIndex out.1 = activeProfileIndex s
  ∧ isWorking out.1 = false
  ∧ (statusTone out.1 = tone_success ∨ statusTone out.1 = tone_error).
Proof.
  intros out. subst out. unfold handleSaveProfiles.
  destruct (invokeTauri tauri save_profiles _ b) as [[u|e] b']; simpl;
    repeat split; auto.
Qed.

(** [X11] [handleLoadProfiles] makes exactly one invocation, [load_profiles] with
    the current passphrase and nothing else; no profile leaves the pane on a
    load.  With the runtime missing neither handler reaches a backend. *)
Theorem load_sends_passphrase_only {B} (inner : Invoke B) (s : ShellState)
    (b : B) (log : list Call) :
  (handleLoadProfiles (Some (recording inner)) s (b, log)).2.2
  = log ++ [ CallOf load_profiles {| load_passphrase := passphrase s |} ]
  ∧ (handleLoadProfiles (B := B * list Call) None s (b, log)).2 = (b, log)
  ∧ (handleSaveProfiles (B := B * list Call) None s (b, log)).2 = (b, log).
Proof.
  split; [|done].
  unfold handleLoadProfiles, invokeTauri, recording. simpl.
  by destruct (inner load_profiles _ b).
Qed.

Lemma toPayload_toLocalProfile_list (l : list ProviderProfilePayload.t) :
  toPayload <$> (toLocalProfile <$> l) = l.
Proof.
  rewrite <- list_fmap_compose. rewrite <- (list_fmap_id l) at 2.
  apply list_fmap_ext. intros i q _. apply toPayload_toLocalProfile.
Qed.

(** [X12] A load that brings a non-empty list followed at once by a save sends
    back the very payloads that were loaded, under the same passphrase:
    the pane neither drops nor alters a field of a profile it only shows. *)
Theorem load_then_save_sends_loaded {B} (inner : Invoke B) (s : ShellState)
    (b b' : B) (log : list Call) (loaded : list ProviderProfilePayload.t) :
  inner load_profiles {| load_passphrase := passphrase s |} b
    = (Resolved loaded, b') →
  loaded ≠ [] →
  let after_load := handleLoadProfiles (Some (recording inner)) s (b, log) in
  let after_save :=
    handleSaveProfiles (Some (recording inner)) after_load.1 after_load.2 in
  after_save.2.2
  = log ++ [ CallOf load_profiles {| load_passphrase := passphrase s |};
             CallOf save_profiles {| save_passphrase := passphrase s;
                                     save_payloads := loaded |} ].
Proof.
  intros Hcall Hne after_load after_save. subst after_save after_load.
  unfold handleLoadProfiles, handleSaveProfiles, invokeTauri, recording.
  simpl. rewrite Hcall. simpl.
  unfold loadSettled. rewrite decide_False; [|by destruct loaded]. simpl.
  rewrite toPayload_toLocalProfile_list.
  destruct (inner save_profiles _ b') as [r b'']. simpl.
  by rewrite <- app_assoc.
Qed.

Lemma load_then_save_sends_loaded_witness :
  let tauri := Some (recording (canned (Resolved [work; home]) (Resolved ()))) in
  let after_load := handleLoadProfiles tauri initialState ((), []) in
  (handleSaveProfiles tauri after_load.1 after_load.2).2.2
  = [ CallOf load_profiles {| load_passphrase := "" |};
      CallOf save_profiles {| save_passphrase := "";
                              save_payloads := [work; home] |} ].
Proof.
  exact (load_then_save_sends_loaded
           (canned (Resolved [work; home]) (Resolved ()))
           initialState () () [] [work; home] eq_refl ltac:(discriminate)).
Defined.

(** ** Edits and the backend *)

(** What an edit does to the passphrase, the list and the selection depends
    on these three alone; it leaves the working flag, the status line and
    the backend as they are. *)
Lemma edit_same_data {B1 B2} (tauri1 : option (Invoke B1))
    (tauri2 : option (Invoke B2)) (a : Action) s1 s2 b1 b2 :
  backend_action a = false →
  passphrase s1 = passphrase s2 →
  profiles s1 = profiles s2 →
  activeProfileIndex s1 = activeProfileIndex s2 →
  let t1 := act tauri1 a (s1, b1) in
  let t2 := act tauri2 a (s2, b2) in
  passphrase t1.1 = passphrase t2.1
  ∧ profiles t1.1 = profiles t2.1
  ∧ activeProfileIndex t1.1 = activeProfileIndex t2.1
  ∧ isWorking t1.1 = isWorking s1
  ∧ statusTone t1.1 = statusTone s1
  ∧ statusMessage t1.1 = statusMessage s1
  ∧ t1.2 = b1.
Proof.
  intros Ha Hpass Hprof Hidx t1 t2. subst t1 t2.
  destruct a as [v|i|kv| | | |]; try discriminate Ha; simpl.
  - done.
  - done.
  - by rewrite Hprof, Hidx.
  - by rewrite Hprof.
  - unfold removeProfile. rewrite Hprof, Hidx.
    by case_decide.
Qed.

(** [X13] In browser preview mode, with no Tauri runtime, the Load and Save
    buttons change nothing but the status line: after any sequence of
    actions the passphrase, the profile list and the selection are those of
    the same sequence without its Load and Save clicks, and the backend
    state is untouched. *)
Theorem preview_mode_edits_only {B} (acts : list Action) (s : ShellState)
    (b : B) :
  let full := run_actions None acts (s, b) in
  let edited :=
    run_actions None (filter (λ a, backend_action a = false) acts) (s, b) in
  passphrase full.1 = passphrase edited.1
  ∧ profiles full.1 = profiles edited.1
  ∧ activeProfileIndex full.1 = activeProfileIndex edited.1
  ∧ full.2 = b.
Proof.
  intros full edited. subst full edited. unfold run_actions.
  cut (∀ s1 s2 : ShellState,
         passphrase s1 = passphrase s2 → profiles s1 = profiles s2 →
         activeProfileIndex s1 = activeProfileIndex s2 →
         let full := foldl (λ st a, act None a st) (s1, b) acts in
         let edited := foldl (λ st a, act None a st) (s2, b)
                         (filter (λ a, backend_action a = false) acts) in
         passphrase full.1 = passphrase edited.1
         ∧ profiles full.1 = profiles edited.1
         ∧ activeProfileIndex full.1 = activeProfileIndex edited.1
         ∧ full.2 = b).
  { intros H. by apply H. }
  induction acts as [|a acts IH]; intros s1 s2 Hpass Hprof Hidx; [done|].
  destruct (backend_action a) eqn:Ha.
  - rewrite filter_cons_False; [|by rewrite Ha]. simpl.
    assert (Hstep : ∃ t, act (B := B) None a (s1, b) = (t, b)
                         ∧ passphrase t = passphrase s1
                         ∧ profiles t = profiles s1
                         ∧ activeProfileIndex t = activeProfileIndex s1).
    { destruct a; try discriminate Ha; simpl; eexists; split; done. }
    destruct Hstep as (t & -> & Hp1 & Hp2 & Hp3).
    apply IH; congruence.
  - rewrite filter_cons_True; [|done]. simpl.
    destruct (edit_same_data (B1 := B) (B2 := B) None None a s1 s2 b b
                Ha Hpass Hprof Hidx) as (H1 & H2 & H3 & _ & _ & _ & Hb).
    destruct (act None a (s1, b)) as [t1 b1].
    destruct (act None a (s2, b)) as [t2 b2] eqn:Hact2.
    simpl in *. subst b1.
    assert (b2 = b) as ->.
    { destruct (edit_same_data (B1 := B) (B2 := B) None None a s2 s2 b b
                  Ha eq_refl eq_refl eq_refl) as (_ & _ & _ & _ & _ & _ & Hb2).
      by rewrite Hact2 in Hb2. }
    by apply IH.
Qed.

(** ** The handlers with other actions in between *)

Lemma resume_isWorking (k : Pending) (s : ShellState) :
  isWorking (resume k s) = false.
Proof.
  destruct k as [r|sent r]; simpl.
  - done.
  - done.
Qed.

Lemma click_edit {B} (tauri : option (Invoke B)) (a : Action) (p : Pane B) :
  backend_action a = false →
  isWorking (view (click tauri a p)) = isWorking (view p)
  ∧ backend (click tauri a p) = backend p
  ∧ inflight (click tauri a p) = inflight p.
Proof.
  intros Ha.
  destruct (edit_same_data tauri tauri a (view p) (view p) (backend p)
              (backend p) Ha eq_refl eq_refl eq_refl)
    as (_ & _ & _ & Hw & _).
  by destruct a.
Qed.

(** [X15] At most one invocation is in flight at any time, and the working flag
    is on exactly while one is: the Load and Save buttons, disabled while
    the flag is on, cannot start a second one. *)
Theorem one_invocation_in_flight {B} (tauri : option (Invoke B)) (b0 : B)
    (p : Pane B) :
  Async.reachable tauri b0 p →
  length (inflight p) ≤ 1
  ∧ (isWorking (view p) = true ↔ inflight p ≠ []).
Proof.
  intros Hreach.
  cut ((isWorking (view p) = false ∧ inflight p = [])
       ∨ (isWorking (view p) = true ∧ length (inflight p) = 1)).
  { intros [[Hw Hi]|[Hw Hi]]; rewrite Hw.
    - rewrite Hi. simpl. split; [lia|]. split; done.
    - split; [lia|]. split; [|done]. intros _ Hnil.
      by rewrite Hnil in Hi. }
  induction Hreach as [|p e Hreach IH Hen].
  - by left.
  - destruct e as [a|i]; simpl in *.
    + destruct (backend_action a) eqn:Ha.
      * right. destruct IH as [[Hw Hi]|[Hw Hi]].
        -- destruct a; try discriminate Ha; unfold click; rewrite Hi.
           ++ by destruct (invokeTauri tauri load_profiles _ (backend p)).
           ++ by destruct (invokeTauri tauri save_profiles _ (backend p)).
        -- destruct a; try discriminate Ha; simpl in Hen; congruence.
      * destruct (click_edit tauri a p Ha) as (Hw' & _ & Hi').
        rewrite Hw', Hi'. exact IH.
    + left. destruct IH as [[Hw Hi]|[Hw Hi]].
      * rewrite Hi in Hen. simpl in Hen. lia.
      * assert (i = 0) as -> by lia.
        unfold settle.
        destruct (inflight p) as [|k [|k' rest]]; try discriminate Hi.
        simpl. split; [apply resume_isWorking | done].
Qed.

Lemma one_invocation_in_flight_witness :
  let tauri := Some (canned (Resolved [work]) (Resolved ())) in
  let p := step tauri (Click AddProfile)
             (step tauri (Click LoadProfiles) (start ())) in
  length (inflight p) ≤ 1.
Proof.
  intros tauri p.
  refine (proj1 (one_invocation_in_flight tauri () p _)).
  apply Async.reachable_step.
  - apply Async.reachable_step; [apply Async.reachable_start | reflexivity].
  - exact I.
Defined.

Lemma resume_selection_ok (k : Pending) (s : ShellState) :
  selection_ok s → selection_ok (resume k s).
Proof.
  intros [Hne Hlt]. destruct k as [[l|e]|sent [u|e]]; simpl; try done.
  unfold loadSettled. case_decide as Hlen; simpl; [done|].
  destruct l as [|q l]; [done|]. split; [done | simpl; lia].
Qed.

(** [X16] Also with handlers suspended and resumed between other actions, the
    profile list is never empty and the selection always points into it. *)
Theorem selection_survives_interleaving {B} (tauri : option (Invoke B))
    (b0 : B) (p : Pane B) :
  Async.reachable tauri b0 p →
  1 ≤ length (profiles (view p))
  ∧ activeProfileIndex (view p) < length (profiles (view p)).
Proof.
  intros Hreach.
  cut (selection_ok (view p)).
  { intros [Hne Hlt]. split; [lia | done]. }
  induction Hreach as [|p e Hreach IH Hen].
  - apply selection_ok_initial.
  - destruct e as [a|i]; simpl in *.
    + destruct (backend_action a) eqn:Ha.
      * destruct a; try discriminate Ha; unfold click.
        -- by destruct (invokeTauri tauri load_profiles _ (backend p)).
        -- by destruct (invokeTauri tauri save_profiles _ (backend p)).
      * pose proof (selection_ok_act tauri a (view p, backend p) Hen IH) as H.
        by destruct a.
    + unfold settle. destruct (inflight p !! i) as [k|]; [|done].
      simpl. by apply resume_selection_ok.
Qed.

Lemma selection_survives_interleaving_witness :
  let tauri := Some (canned (Resolved [work; home]) (Resolved ())) in
  let p := step tauri (Settle 0)
             (step tauri (Click RemoveProfile)
                (step tauri (Click AddProfile)
                   (step tauri (Click LoadProfiles) (start ())))) in
  activeProfileIndex (view p) < length (profiles (view p)).
Proof.
  intros tauri p.
  refine (proj2 (selection_survives_interleaving tauri () p _)).
  repeat (apply Async.reachable_step; [|simpl; done || lia]).
  apply Async.reachable_start.
Defined.

Lemma edits_frame {B} (tauri : option (Invoke B)) (acts : list Action)
    (p : Pane B) :
  Forall (λ a, backend_action a = false) acts →
  backend (edits tauri acts p) = backend p
  ∧ inflight (edits tauri acts p) = inflight p.
Proof.
  unfold edits. intros Hacts. revert p.
  induction Hacts as [|a acts Ha _ IH]; intros p; [done|]. simpl.
  destruct (IH (click tauri a p)) as [-> ->].
  by destruct (click_edit tauri a p Ha) as (_ & -> & ->).
Qed.

Lemma edits_same_data {B} (tauri : option (Invoke B)) (acts : list Action)
    (p1 p2 : Pane B) :
  Forall (λ a, backend_action a = false) acts →
  passphrase (view p1) = passphrase (view p2) →
  profiles (view p1) = profiles (view p2) →
  activeProfileIndex (view p1) = activeProfileIndex (view p2) →
  passphrase (view (edits tauri acts p1)) = passphrase (view (edits tauri acts p2))
  ∧ profiles (view (edits tauri acts p1)) = profiles (view (edits tauri acts p2))
  ∧ activeProfileIndex (view (edits tauri acts p1))
    = activeProfileIndex (view (edits tauri acts p2)).
Proof.
  unfold edits. intros Hacts. revert p1 p2.
  induction Hacts as [|a acts Ha _ IH]; intros p1 p2 H1 H2 H3; [done|].
  simpl. apply IH;
    destruct (edit_same_data tauri tauri a (view p1) (view p2)
                (backend p1) (backend p2) Ha H1 H2 H3) as (E1 & E2 & E3 & _);
    by destruct a.
Qed.

(** [X17] Edits made while a save is in flight are kept when it settles, and the
    success message then counts the profiles that were sent, not the
    profiles on display. *)
Theorem save_in_flight_keeps_edits {B} (tauri : option (Invoke B))
    (p : Pane B) (acts : list Action) :
  inflight p = [] →
  Forall (λ a, backend_action a = false) acts →
  let q := settle 0 (edits tauri acts (click tauri SaveProfiles p)) in
  passphrase (view q) = passphrase (view (edits tauri acts p))
  ∧ profiles (view q) = profiles (view (edits tauri acts p))
  ∧ activeProfileIndex (view q) = activeProfileIndex (view (edits tauri acts p))
  ∧ isWorking (view q) = false
  ∧ inflight q = []
  ∧ (∀ u, (invokeTauri tauri save_profiles
             {| save_passphrase := passphrase (view p);
                save_payloads := toPayload <$> profiles (view p) |}
             (backend p)).1 = Resolved u →
          statusMessage (view q)
          = "Saved " +:+ pretty (length (profiles (view p)))
            +:+ " profile(s) to encrypted storage.").
Proof.
  intros Hidle Hacts q. subst q.
  destruct (edits_frame tauri acts (click tauri SaveProfiles p) Hacts)
    as [_ Hin].
  destruct (edits_same_data tauri acts (click tauri SaveProfiles p) p Hacts)
    as (E1 & E2 & E3).
  1-3: unfold click;
       by destruct (invokeTauri tauri save_profiles _ (backend p)).
  destruct (invokeTauri tauri save_profiles _ (backend p)) as [r b'] eqn:Hcall.
  assert (Hc : click tauri SaveProfiles p
               = mkPane (setIsWorking true (view p)) b'
                        [PendingSave (profiles (view p)) r]).
  { unfold click. by rewrite Hcall, Hidle. }
  rewrite Hc in *. unfold settle. rewrite Hin. simpl.
  rewrite <- E1, <- E2, <- E3.
  destruct r as [u|e]; simpl; repeat split; try done.
Qed.

Lemma save_in_flight_keeps_edits_witness :
  let tauri := Some (canned (Resolved []) (Resolved ())) in
  let q := settle 0 (edits tauri [AddProfile; AddProfile]
                       (click tauri SaveProfiles (start ()))) in
  length (profiles (view q)) = 3
  ∧ statusMessage (view q) = "Saved 1 profile(s) to encrypted storage.".
Proof.
  intros tauri q.
  destruct (save_in_flight_keeps_edits tauri (start ())
              [AddProfile; AddProfile] eq_refl
              ltac:(repeat constructor))
    as (_ & Hp & _ & _ & _ & Hm).
  split.
  - unfold q. by rewrite Hp.
  - exact (Hm () eq_refl).
Defined.

(** [X18] Edits to the profile list made while a load is in flight are lost when
    it resolves with a non-empty list, which replaces the list and resets
    the selection, and are kept when it resolves empty or is rejected; the
    passphrase typed meanwhile is kept in every case. *)
Theorem load_in_flight_replaces_edits {B} (tauri : option (Invoke B))
    (p : Pane B) (acts : list Action) :
  inflight p = [] →
  Forall (λ a, backend_action a = false) acts →
  let r := (invokeTauri tauri load_profiles
              {| load_passphrase := passphrase (view p) |} (backend p)).1 in
  let q := settle 0 (edits tauri acts (click tauri LoadProfiles p)) in
  passphrase (view q) = passphrase (view (edits tauri acts p))
  ∧ isWorking (view q) = false
  ∧ inflight q = []
  ∧ match r with
    | Resolved (q1 :: rest) =>
        profiles (view q) = toLocalProfile <$> (q1 :: rest)
        ∧ activeProfileIndex (view q) = 0
    | _ =>
        profiles (view q) = profiles (view (edits tauri acts p))
        ∧ activeProfileIndex (view q)
          = activeProfileIndex (view (edits tauri acts p))
    end.
Proof.
  intros Hidle Hacts r q. subst r q.
  destruct (edits_frame tauri acts (click tauri LoadProfiles p) Hacts)
    as [_ Hin].
  destruct (edits_same_data tauri acts (click tauri LoadProfiles p) p Hacts)
    as (E1 & E2 & E3).
  1-3: unfold click;
       by destruct (invokeTauri tauri load_profiles _ (backend p)).
  destruct (invokeTauri tauri load_profiles _ (backend p)) as [r b'] eqn:Hcall.
  assert (Hc : click tauri LoadProfiles p
               = mkPane (setIsWorking true (view p)) b' [PendingLoad r]).
  { unfold click. by rewrite Hcall, Hidle. }
  rewrite Hc in *. unfold settle. rewrite Hin. simpl.
  rewrite <- E1, <- E2, <- E3.
  destruct r as [[|q1 rest]|e]; simpl; repeat split; try done.
Qed.

Lemma load_in_flight_replaces_edits_witness :
  let tauri := Some (canned (Resolved [work]) (Resolved ())) in
  let q := settle 0 (edits tauri [AddProfile; EditPassphrase "p@ss"]
                       (click tauri LoadProfiles (start ()))) in
  passphrase (view q) = "p@ss"
  ∧ profiles (view q) = [toLocalProfile work].
Proof.
  intros tauri q.
  destruct (load_in_flight_replaces_edits tauri (start ())
              [AddProfile; EditPassphrase "p@ss"] eq_refl
              ltac:(repeat constructor))
    as (Hpass & _ & _ & Hp & _).
  split.
  - unfold q. by rewrite Hpass.
  - exact Hp.
Defined.

(** [X19] The tone after a load tells the outcome apart: informational for an
    empty list, success for a non-empty one, error for a rejection; the
    number in the success message is the number of profiles then on
    display; and the working flag is off in every case. *)
Theorem load_status_by_outcome {B} (tauri : option (Invoke B))
    (s : ShellState) (b : B) :
  let r := (invokeTauri tauri load_profiles
              {| load_passphrase := passphrase s |} b).1 in
  let out := (handleLoadProfiles tauri s b).1 in
  isWorking out = false
  ∧ match r with
    | Resolved [] => statusTone out = tone_info
    | Resolved (q :: rest) =>
        statusTone out = tone_success
        ∧ statusMessage out
          = "Loaded " +:+ pretty (length (profiles out))
            +:+ " encrypted profile(s)."
    | Rejected e => statusTone out = tone_error
    end.
Proof.
  intros r out. subst r out. unfold handleLoadProfiles.
  destruct (invokeTauri tauri load_profiles _ b) as [[[|q rest]|e] b'];
    simpl; split; try done.
  split; [done|]. by rewrite length_fmap.
Qed.
